(** * download_helper.py: streaming download of a model file

    A shallow embedding of [src/download_helper.py].  The script issues one
    HTTP GET, checks the status, streams the body to a file inside a [with]
    block and reports the outcome on the console.  Its code is straight-line
    Python over three pieces of the outside world (network, file system,
    console), so the embedding is a small state-and-exception monad over an
    explicit [world], with the behaviour of the outside world given by an
    [env] of oracles.

    The script is translated statement by statement ([try_body], [handlers],
    [script]).  What it calls is not part of the source and is modelled from
    the documented behaviour of Python and of the requests library:
    - [try]/[except] tries the clauses in order and matches by [isinstance];
    - [with open(...) as f] closes the file however the block is left;
    - [requests.get] either raises or returns a response, whatever its
      status; [raise_for_status] raises [HTTPError] for 4xx and 5xx;
    - [iter_content] hands out the bytes that arrive in pieces of at most
      [chunk_size] bytes, and raises after them when the connection broke;
    - a write that the disk refuses writes nothing;
    - [print] does not fail.

    Two of these are idealisations.  The file object of [open(..., "wb")]
    is buffered: a write can be accepted and the failure reported by a later
    write or by [close], with part of a chunk on disk.  And where the pieces
    of [iter_content] are cut, and whether an incomplete last piece is
    handed out before a broken connection is reported, depends on the
    transfer.  The statements below about the contents of the destination
    are therefore made either for transfers in which nothing fails (the file
    then holds the body, however it was cut) or as prefix relations and
    equalities between runs, which hold either way; the pieces themselves
    appear in statements only under an existential. *)

From Stdlib.Strings Require Import Byte.
From stdpp Require Import gmap strings list fin_maps pretty.

Local Open Scope string_scope.

Set Warnings "-abstract-large-number".

(** ** Python exceptions *)

Module Py.

(** The exception classes that can reach the script's [try] block.
    [IOError] is an alias of [OSError] in Python 3, and
    [requests.exceptions.RequestException] is declared as
    [class RequestException(IOError)]. *)
Inductive pyclass : Type :=
  | BaseException
  | KeyboardInterrupt
  | Exception
  | MemoryError
  | ValueError
  | OSError
  | FileNotFoundError
  | PermissionError
  | IsADirectoryError
  | RequestException
  | HTTPError
  | ConnectionError
  | ChunkedEncodingError
  | ContentDecodingError.

Definition IOError : pyclass := OSError.

#[global] Instance pyclass_eq_dec : EqDecision pyclass.
Proof. solve_decision. Defined.

(** Direct base class ([None] for the root). *)
Definition base (c : pyclass) : option pyclass :=
  match c with
  | BaseException => None
  | KeyboardInterrupt => Some BaseException
  | Exception => Some BaseException
  | MemoryError => Some Exception
  | ValueError => Some Exception
  | OSError => Some Exception
  | FileNotFoundError => Some OSError
  | PermissionError => Some OSError
  | IsADirectoryError => Some OSError
  | RequestException => Some IOError
  | HTTPError => Some RequestException
  | ConnectionError => Some RequestException
  | ChunkedEncodingError => Some RequestException
  | ContentDecodingError => Some RequestException
  end.

(** The chain of a class and its ancestors; the hierarchy is four levels
    deep, so five steps reach the root from anywhere. *)
Fixpoint ancestors (fuel : nat) (c : pyclass) : list pyclass :=
  match fuel with
  | O => [c]
  | S fuel' =>
      match base c with
      | None => [c]
      | Some b => c :: ancestors fuel' b
      end
  end.

Definition mro (c : pyclass) : list pyclass := ancestors 5 c.

Definition issubclass (c d : pyclass) : bool := bool_decide (d ∈ mro c).

(** An exception object: its class and what [str(e)] returns. *)
Record exn : Type := mkExn { exn_class : pyclass; exn_str : string }.

Definition isinstance (e : exn) (c : pyclass) : bool :=
  issubclass (exn_class e) c.

End Py.

Export Py.

(** ** The outside world *)

(** What the process does to the outside, in order.  Calls are recorded when
    they are made, whether or not they succeed: [EvGet] is a call of
    [requests.get], [EvOpen] of [open], [EvWrite] of [f.write], [EvClose] the
    close on leaving the [with] block, [EvPrint] a call of [print]. *)
Inductive event : Type :=
  | EvGet (url : string)
  | EvOpen (path : string)
  | EvWrite (fd : nat) (chunk : list byte)
  | EvClose (fd : nat)
  | EvPrint (line : string).

(** The part of the machine the script can change: the files on disk (path to
    contents), the table of file descriptors the process holds open, the
    lines printed on standard output, and the log of calls. *)
Record world : Type := mkWorld {
  fs : gmap string (list byte);
  fds : gmap nat string;
  stdout : list string;
  trace : list event
}.

(** A [requests.Response] obtained with [stream=True]: the status line, the
    URL, the body bytes that arrive on the connection, and how the stream
    ends ([None]: the body is complete; [Some e]: after the bytes in
    [raw] have been handed out, reading raises [e]). *)
Record Response : Type := mkResponse {
  status_code : Z;
  reason : string;
  resp_url : string;
  raw : list byte;
  raw_error : option exn
}.

(** What the outside world answers.  [http] is the outcome of a GET on a
    URL, [open_fault] says whether opening a path for writing fails,
    [write_fault] whether appending a chunk to a file with the given
    contents fails (disk full, quota), [close_fault] whether closing fails. *)
Record env : Type := mkEnv {
  http : string → exn + Response;
  open_fault : string → option exn;
  write_fault : list byte → list byte → option exn;
  close_fault : string → option exn
}.

(** ** Computations: state and exceptions *)

(** [inl e]: the computation raised [e]; [inr v]: it returned [v]. *)
Definition result (A : Type) : Type := exn + A.

Definition M (A : Type) : Type := env → world → result A * world.

#[global] Instance M_ret : MRet M := λ A (v : A) _ w, (inr v, w).

#[global] Instance M_bind : MBind M := λ A B (k : A → M B) (m : M A) E w,
  match m E w with
  | (inl e, w') => (inl e, w')
  | (inr v, w') => k v E w'
  end.

Definition raise {A : Type} (e : exn) : M A := λ _ w, (inl e, w).

(** Reading the state, changing it, and asking the outside world. *)
Definition get_world : M world := λ _ w, (inr w, w).

Definition modify (f : world → world) : M unit := λ _ w, (inr tt, f w).

Definition ask {A : Type} (q : env → A) : M A := λ E w, (inr (q E), w).

Definition set_fs (m : gmap string (list byte)) (w : world) : world :=
  mkWorld m (fds w) (stdout w) (trace w).

Definition set_fds (t : gmap nat string) (w : world) : world :=
  mkWorld (fs w) t (stdout w) (trace w).

Definition add_stdout (line : string) (w : world) : world :=
  mkWorld (fs w) (fds w) (stdout w ++ [line]) (trace w).

Definition add_trace (ev : event) (w : world) : world :=
  mkWorld (fs w) (fds w) (stdout w) (trace w ++ [ev]).

Definition log (ev : event) : M unit := modify (add_trace ev).

(** *** try / except *)

(** An [except C as e: ...] clause. *)
Definition handler : Type := pyclass * (exn → M unit).

(** The clauses are tried in the order they are written; the first whose
    class the exception is an instance of runs, and with no match the
    exception propagates. *)
Fixpoint dispatch (hs : list handler) (e : exn) : M unit :=
  match hs with
  | [] => raise e
  | (c, h) :: hs' => if isinstance e c then h e else dispatch hs' e
  end.

Definition try_except (body : M unit) (hs : list handler) : M unit := λ E w,
  match body E w with
  | (inl e, w') => dispatch hs e E w'
  | (inr v, w') => (inr v, w')
  end.

(** *** print *)

Definition print (line : string) : M unit :=
  log (EvPrint line);;
  modify (add_stdout line).

(** *** Files *)

(** A file object returned by [open]: its descriptor and its path. *)
Record file : Type := mkFile { fileno : nat; name : string }.

(** [open(path, "wb")]: on success the file exists and is empty (created, or
    truncated when it was there), and a fresh descriptor refers to it. *)
Definition open_wb (path : string) : M file :=
  log (EvOpen path);;
  fault ← ask (λ E, open_fault E path);
  match fault with
  | Some e => raise e
  | None =>
      w ← get_world;
      let fd := fresh (dom (fds w)) in
      modify (set_fs (<[path := []]> (fs w)));;
      modify (set_fds (<[fd := path]> (fds w)));;
      mret (mkFile fd path)
  end.

(** [f.write(chunk)]: appends the chunk to the file behind the descriptor.
    Writing through a descriptor that is no longer open raises
    [ValueError].  The write is modelled without the buffer of the file
    object: it reaches the file at once and is refused whole. *)
Definition f_write (f : file) (chunk : list byte) : M unit :=
  log (EvWrite (fileno f) chunk);;
  w ← get_world;
  match fds w !! fileno f with
  | None => raise (mkExn ValueError "I/O operation on closed file.")
  | Some path =>
      let cur := default [] (fs w !! path) in
      fault ← ask (λ E, write_fault E cur chunk);
      match fault with
      | Some e => raise e
      | None => modify (set_fs (<[path := (cur ++ chunk)%list]> (fs w)))
      end
  end.

(** [f.close()]: the descriptor is given back whether or not closing
    reports an error. *)
Definition f_close (f : file) : M unit :=
  log (EvClose (fileno f));;
  w ← get_world;
  modify (set_fds (delete (fileno f) (fds w)));;
  fault ← ask (λ E, close_fault E (name f));
  match fault with
  | Some e => raise e
  | None => mret tt
  end.

(** [with open(path, "wb") as f: body].  When [open] raises, the block is
    not entered and there is nothing to close.  Otherwise the file is closed
    when the block is left, normally or by an exception; the file's
    [__exit__] does not swallow the exception of the body, and an exception
    of [close] replaces it. *)
Definition closing (f : file) (body : M unit) : M unit := λ E w,
  match body E w with
  | (r, w') =>
      match f_close f E w' with
      | (inl e, w'') => (inl e, w'')
      | (inr _, w'') => (r, w'')
      end
  end.

Definition with_open (path : string) (body : file → M unit) : M unit :=
  f ← open_wb path;
  closing f (body f).

(** *** The requests library *)

(** [requests.get(url, stream=True)]: one request; connection failures and
    the like are raised, any response (whatever its status) is returned. *)
Definition requests_get (url : string) : M Response :=
  log (EvGet url);;
  answer ← ask (λ E, http E url);
  match answer with
  | inl e => raise e
  | inr r => mret r
  end.

(** [Response.raise_for_status()]: raises [HTTPError] for a 4xx or 5xx
    status and returns otherwise. *)
Definition http_error_msg (r : Response) : string :=
  if bool_decide (400 ≤ status_code r < 500)%Z then
    pretty (status_code r) ++ " Client Error: " ++ reason r ++ " for url: " ++ resp_url r
  else if bool_decide (500 ≤ status_code r < 600)%Z then
    pretty (status_code r) ++ " Server Error: " ++ reason r ++ " for url: " ++ resp_url r
  else "".

Definition raise_for_status (r : Response) : M unit :=
  if bool_decide (http_error_msg r = "") then mret tt
  else raise (mkExn HTTPError (http_error_msg r)).

(** Cutting a byte string into consecutive pieces of at most [c] bytes.
    With [0 < c] every piece takes at least one byte, so [length B] rounds
    are enough. *)
Fixpoint chunks_from (rounds c : nat) (B : list byte) : list (list byte) :=
  match rounds with
  | O => []
  | S rounds' =>
      match B with
      | [] => []
      | _ :: _ => take c B :: chunks_from rounds' c (drop c B)
      end
  end.

Definition chunks (c : nat) (B : list byte) : list (list byte) :=
  chunks_from (length B) c B.

(** A generator that has finitely many items: what it yields, and whether
    it then stops ([None]) or raises. *)
Record generator (A : Type) : Type := mkGenerator {
  yields : list A;
  ending : option exn
}.
Arguments mkGenerator {A} _ _.
Arguments yields {A} _.
Arguments ending {A} _.

(** [Response.iter_content(chunk_size=c)]: the bytes that arrive, in pieces
    of at most [c] bytes, and then the end of the stream.  The pieces are
    cut here at multiples of [c]; a real transfer may cut them elsewhere. *)
Definition iter_content (c : nat) (r : Response) : generator (list byte) :=
  mkGenerator (chunks c (raw r)) (raw_error r).

(** [for x in g: body]. *)
Fixpoint for_items {A : Type} (items : list A) (fin : option exn)
    (body : A → M unit) : M unit :=
  match items with
  | [] => match fin with Some e => raise e | None => mret tt end
  | x :: rest => body x;; for_items rest fin body
  end.

Definition for_in {A : Type} (g : generator A) (body : A → M unit) : M unit :=
  for_items (yields g) (ending g) body.

(** ** The script *)

Definition url : string := "https://media.roboflow.com/yolov8n.onnx".

Definition destination : string := "public/yolov8n.onnx".

Definition success_message : string := "Model downloaded and saved successfully.".

Definition download_error (e : exn) : string :=
  "Error downloading the model: " ++ exn_str e.

Definition write_error (e : exn) : string :=
  "Error writing the model to file: " ++ exn_str e.

(** The body of the [try] statement, with the chunk size as a parameter. *)
Definition try_body (chunk_size : nat) : M unit :=
  response ← requests_get url;
  raise_for_status response;;
  with_open destination (λ f,
    for_in (iter_content chunk_size response) (λ chunk, f_write f chunk));;
  print success_message.

Definition handlers : list handler :=
  [ (RequestException, λ e, print (download_error e));
    (IOError, λ e, print (write_error e)) ].

Definition script (chunk_size : nat) : M unit :=
  try_except (try_body chunk_size) handlers.

(** The script as it is in the source: chunks of 8192 bytes. *)
Definition download_helper : M unit := script 8192.

(** ** Vocabulary of the statements *)

(** A 2xx status. *)
Definition success_status (r : Response) : Prop :=
  (200 ≤ status_code r < 300)%Z.

(** A 4xx or 5xx status. *)
Definition error_status (r : Response) : Prop :=
  (400 ≤ status_code r < 600)%Z.

(** The disk takes the destination file: opening it, every write and
    closing it succeed. *)
Definition writable (E : env) : Prop :=
  open_fault E destination = None ∧
  (∀ cur chunk, write_fault E cur chunk = None) ∧
  close_fault E destination = None.

(** The first write of a sequence that the disk refuses, when the file
    holds [cur] before the first of them. *)
Fixpoint refused (E : env) (cur : list byte) (items : list (list byte))
    : option exn :=
  match items with
  | [] => None
  | chunk :: rest =>
      match write_fault E cur chunk with
      | Some e => Some e
      | None => refused E (cur ++ chunk) rest
      end
  end.

(** The chunks written before that: the longest prefix of the sequence
    whose writes all succeed. *)
Fixpoint accepted (E : env) (cur : list byte) (items : list (list byte))
    : list (list byte) :=
  match items with
  | [] => []
  | chunk :: rest =>
      match write_fault E cur chunk with
      | Some _ => []
      | None => chunk :: accepted E (cur ++ chunk) rest
      end
  end.

(** How the [with] block of the script ends once the file is open: the
    exception of [close] if it raises, else the refused write, else the end
    of the stream. *)
Definition block_result (c : nat) (E : env) (r : Response) : result unit :=
  match close_fault E destination with
  | Some e => inl e
  | None =>
      match refused E [] (chunks c (raw r)) with
      | Some e => inl e
      | None =>
          match raw_error r with
          | Some e => inl e
          | None => inr tt
          end
      end
  end.

(** The events a run adds to the log. *)
Definition new_events (w w' : world) : list event :=
  drop (length (trace w)) (trace w').

(** The result of a run and the world it leaves. *)
Definition outcome (c : nat) (E : env) (w : world) : result unit :=
  (script c E w).1.

Definition after (c : nat) (E : env) (w : world) : world :=
  (script c E w).2.

(** How many calls of [requests.get] a log shows. *)
Definition is_get (ev : event) : bool :=
  match ev with EvGet _ => true | _ => false end.

Definition requests_sent (evs : list event) : nat :=
  length (filter (λ ev, is_get ev = true) evs).

(** The server answers the request with a 2xx status and delivers the body
    [B] completely. *)
Definition serves (E : env) (B : list byte) : Prop :=
  ∃ r, http E url = inr r ∧ success_status r ∧ raw r = B ∧ raw_error r = None.

(** ** Scenarios *)

(** A fresh machine: no files, nothing open, nothing printed. *)
Definition fresh_world : world := mkWorld ∅ ∅ [] [].

(** A machine where the destination exists already, with other contents,
    next to another file. *)
Definition used_world : world :=
  mkWorld (<[destination := [xde; xad; xbe; xef; x00; x01]]>
             {[ "public/index.html" := [x3c; x21] ]})
          ∅ [] [].

(** The 256 bytes 0x00 .. 0xFF. *)
Definition all_bytes : list byte :=
  (λ n, default x00 (Byte.of_nat n)) <$> seq 0 256.

Definition good_disk_open : string → option exn := λ _, None.
Definition good_disk_write : list byte → list byte → option exn := λ _ _, None.
Definition good_disk_close : string → option exn := λ _, None.

(** A server that answers every URL with the given status line and body. *)
Definition answering (status : Z) (why : string) (body : list byte)
    (err : option exn) : string → exn + Response :=
  λ u, inr (mkResponse status why u body err).

(** Status 200 with the 256-byte body, and a disk without faults. *)
Definition env_ok : env :=
  mkEnv (answering 200 "OK" all_bytes None)
        good_disk_open good_disk_write good_disk_close.

(** Status 200 with an empty body. *)
Definition env_empty : env :=
  mkEnv (answering 200 "OK" [] None)
        good_disk_open good_disk_write good_disk_close.

(** Status 403 with the body "Forbidden". *)
Definition env_forbidden : env :=
  mkEnv (answering 403 "Forbidden"
           [x46; x6f; x72; x62; x69; x64; x64; x65; x6e] None)
        good_disk_open good_disk_write good_disk_close.



(** Status 200, but the directory of the destination does not exist. *)
Definition no_such_directory : exn :=
  mkExn FileNotFoundError
    "[Errno 2] No such file or directory: 'public/yolov8n.onnx'".

Definition env_missing_dir : env :=
  mkEnv (answering 200 "OK" all_bytes None)
        (λ _, Some no_such_directory) good_disk_write good_disk_close.

(** Status 200, but the disk has room for 100 bytes only. *)
Definition disk_full : exn :=
  mkExn OSError "[Errno 28] No space left on device".

Definition env_disk_full : env :=
  mkEnv (answering 200 "OK" all_bytes None)
        good_disk_open
        (λ cur chunk,
           if bool_decide (length cur + length chunk ≤ 100)%nat then None
           else Some disk_full)
        good_disk_close.

(** Status 200, and the user interrupts the process during a write. *)
Definition interrupted : exn := mkExn KeyboardInterrupt "".

Definition env_interrupted : env :=
  mkEnv (answering 200 "OK" all_bytes None)
        good_disk_open (λ _ _, Some interrupted) good_disk_close.

(** The machine is offline: the request itself fails. *)
Definition no_route : exn :=
  mkExn ConnectionError
    "HTTPSConnectionPool(host='media.roboflow.com', port=443): Max retries exceeded".

Definition env_offline : env :=
  mkEnv (λ _, inl no_route) good_disk_open good_disk_write good_disk_close.

(** The request fails with a plain [OSError]: requests cannot find its
    certificate bundle. *)
Definition no_ca_bundle : exn :=
  mkExn OSError
    "Could not find a suitable TLS CA certificate bundle, invalid path: /etc/ssl/cert.pem".

Definition env_no_ca_bundle : env :=
  mkEnv (λ _, inl no_ca_bundle) good_disk_open good_disk_write good_disk_close.

(** Status 300 with a short HTML body. *)
Definition env_multiple_choices : env :=
  mkEnv (answering 300 "Multiple Choices" [x3c; x68; x31; x3e] None)
        good_disk_open good_disk_write good_disk_close.

(** ** Running the primitives *)

Ltac unfold_M :=
  unfold mbind, M_bind, mret, M_ret, ask, log, modify, raise, get_world;
  simpl.

Section Run.
Context (E : env).

Lemma bind_run {A B : Type} (m : M A) (k : A → M B) (w : world) :
  (m ≫= k) E w =
  match m E w with
  | (inl e, w') => (inl e, w')
  | (inr v, w') => k v E w'
  end.
Proof. reflexivity. Qed.

Lemma requests_get_run (u : string) (w : world) :
  requests_get u E w = (http E u, add_trace (EvGet u) w).
Proof. unfold requests_get. unfold_M. destruct (http E u); reflexivity. Qed.

Lemma print_run (s : string) (w : world) :
  print s E w = (inr tt, add_stdout s (add_trace (EvPrint s) w)).
Proof. reflexivity. Qed.

Lemma open_wb_run (p : string) (w : world) :
  open_wb p E w =
  match open_fault E p with
  | Some e => (inl e, add_trace (EvOpen p) w)
  | None =>
      (inr (mkFile (fresh (dom (fds w))) p),
       mkWorld (<[p := []]> (fs w)) (<[fresh (dom (fds w)) := p]> (fds w))
               (stdout w) (trace w ++ [EvOpen p]))
  end.
Proof. unfold open_wb. unfold_M. destruct (open_fault E p); reflexivity. Qed.

Lemma f_write_run (f : file) (chunk : list byte) (w : world) :
  f_write f chunk E w =
  match fds w !! fileno f with
  | None =>
      (inl (mkExn ValueError "I/O operation on closed file."),
       add_trace (EvWrite (fileno f) chunk) w)
  | Some p =>
      match write_fault E (default [] (fs w !! p)) chunk with
      | Some e => (inl e, add_trace (EvWrite (fileno f) chunk) w)
      | None =>
          (inr tt,
           mkWorld (<[p := (default [] (fs w !! p) ++ chunk)%list]> (fs w))
                   (fds w) (stdout w)
                   (trace w ++ [EvWrite (fileno f) chunk]))
      end
  end.
Proof.
  unfold f_write. unfold_M. destruct (fds w !! fileno f); [|reflexivity].
  unfold_M. destruct (write_fault _ _ _); reflexivity.
Qed.

Lemma f_close_run (f : file) (w : world) :
  f_close f E w =
  (match close_fault E (name f) with Some e => inl e | None => inr tt end,
   mkWorld (fs w) (delete (fileno f) (fds w)) (stdout w)
           (trace w ++ [EvClose (fileno f)])).
Proof. unfold f_close. unfold_M. destruct (close_fault _ _); reflexivity. Qed.

Lemma raise_for_status_run (r : Response) (w : world) :
  raise_for_status r E w =
  (if bool_decide (http_error_msg r = "") then inr tt
   else inl (mkExn HTTPError (http_error_msg r)), w).
Proof. unfold raise_for_status. case_bool_decide; reflexivity. Qed.

(** The transfer loop, step by step: the chunks are appended in order up
    to the first refused write; if none is refused the loop ends the way
    the stream ends. *)
Lemma for_items_write (fd : nat) (p : string) (fin : option exn)
    (items : list (list byte)) :
  ∀ (w : world) (cur : list byte),
    fds w !! fd = Some p →
    fs w !! p = Some cur →
    for_items items fin (λ chunk, f_write (mkFile fd p) chunk) E w =
    (match refused E cur items with
     | Some e => inl e
     | None => match fin with Some e => inl e | None => inr tt end
     end,
     mkWorld (<[p := (cur ++ concat (accepted E cur items))%list]> (fs w))
             (fds w) (stdout w)
             (trace w ++
                (EvWrite fd <$> take (S (length (accepted E cur items))) items))).
Proof.
  induction items as [|chunk rest IH]; intros w cur Hfd Hfs.
  - simpl. rewrite !app_nil_r, (insert_id _ _ _ Hfs).
    destruct w, fin; reflexivity.
  - simpl for_items. rewrite bind_run, f_write_run. simpl fileno.
    rewrite Hfd, Hfs. simpl default. simpl refused. simpl accepted.
    destruct (write_fault E cur chunk) as [e|] eqn:Hw.
    + simpl. rewrite app_nil_r, (insert_id _ _ _ Hfs).
      destruct w; reflexivity.
    + rewrite (IH _ (cur ++ chunk)%list); simpl.
      * rewrite insert_insert_eq, <- !app_assoc. reflexivity.
      * exact Hfd.
      * apply lookup_insert_eq.
Qed.
End Run.

(** ** Chunking *)

Lemma chunks_from_concat (c : nat) :
  (0 < c)%nat →
  ∀ (rounds : nat) (B : list byte),
    (length B ≤ rounds)%nat → concat (chunks_from rounds c B) = B.
Proof.
  intros Hc. induction rounds as [|rounds IH]; intros B Hlen.
  - destruct B; [reflexivity | simpl in Hlen; lia].
  - destruct B as [|b B']; [reflexivity|].
    cbn [chunks_from concat]. rewrite IH.
    + apply take_drop.
    + rewrite length_drop. simpl in *. lia.
Qed.

Lemma chunks_concat (c : nat) (B : list byte) :
  (0 < c)%nat → concat (chunks c B) = B.
Proof. intros Hc. apply chunks_from_concat; [exact Hc | reflexivity]. Qed.

Lemma chunks_nil (c : nat) : chunks c [] = [].
Proof. reflexivity. Qed.

(** When the disk refuses nothing, every chunk is written. *)
Lemma accepted_all (E : env) (items : list (list byte)) :
  (∀ cur chunk, write_fault E cur chunk = None) →
  ∀ cur, accepted E cur items = items ∧ refused E cur items = None.
Proof.
  intros Hw. induction items as [|chunk rest IH]; intros cur; simpl.
  - split; reflexivity.
  - rewrite Hw. destruct (IH (cur ++ chunk)%list) as [-> ->].
    split; reflexivity.
Qed.

(** What has been written is a prefix of what was to be written. *)
Lemma accepted_prefix (E : env) (items : list (list byte)) :
  ∀ cur, accepted E cur items `prefix_of` items.
Proof.
  induction items as [|chunk rest IH]; intros cur; simpl.
  - reflexivity.
  - destruct (write_fault E cur chunk); [apply prefix_nil|].
    apply prefix_cons, IH.
Qed.

(** ** The [try] body, case by case *)

Lemma http_error_msg_error (r : Response) :
  error_status r → http_error_msg r ≠ "".
Proof.
  unfold error_status, http_error_msg. intros Hs.
  repeat case_bool_decide; try lia; destruct (pretty (status_code r)); discriminate.
Qed.

Lemma http_error_msg_no_error (r : Response) :
  ¬ error_status r → http_error_msg r = "".
Proof.
  unfold error_status, http_error_msg. intros Hs.
  repeat case_bool_decide; try lia; reflexivity.
Qed.

Lemma success_not_error (r : Response) : success_status r → ¬ error_status r.
Proof. unfold success_status, error_status. lia. Qed.

Section TryBody.
Context (c : nat) (E : env) (w : world).

(** The request itself fails: nothing else happens. *)
Lemma try_body_no_response (e : exn) :
  http E url = inl e →
  try_body c E w = (inl e, add_trace (EvGet url) w).
Proof.
  intros Hget. unfold try_body.
  rewrite bind_run, requests_get_run, Hget. reflexivity.
Qed.

(** The status check fails: nothing happens after the request. *)
Lemma try_body_error_status (r : Response) :
  http E url = inr r →
  error_status r →
  try_body c E w =
  (inl (mkExn HTTPError (http_error_msg r)), add_trace (EvGet url) w).
Proof.
  intros Hget Hst. unfold try_body.
  rewrite bind_run, requests_get_run, Hget.
  rewrite bind_run, raise_for_status_run.
  rewrite bool_decide_eq_false_2 by (apply http_error_msg_error, Hst).
  reflexivity.
Qed.

(** The file cannot be opened. *)
Lemma try_body_open_fails (r : Response) (e : exn) :
  http E url = inr r →
  ¬ error_status r →
  open_fault E destination = Some e →
  try_body c E w =
  (inl e, add_trace (EvOpen destination) (add_trace (EvGet url) w)).
Proof.
  intros Hget Hst Hopen. unfold try_body.
  rewrite bind_run, requests_get_run, Hget.
  rewrite bind_run, raise_for_status_run.
  rewrite bool_decide_eq_true_2 by (apply http_error_msg_no_error, Hst).
  rewrite bind_run. unfold with_open.
  rewrite bind_run, open_wb_run, Hopen. reflexivity.
Qed.

(** The file is opened: the block runs and the file is closed. *)
Lemma try_body_opened (r : Response) :
  http E url = inr r →
  ¬ error_status r →
  open_fault E destination = None →
  let fd := fresh (dom (fds w)) in
  let items := chunks c (raw r) in
  let done := accepted E [] items in
  let res := block_result c E r in
  try_body c E w =
  (res,
   mkWorld (<[destination := concat done]> (fs w))
           (fds w)
           (stdout w ++ (if res is inr _ then [success_message] else []))
           (trace w ++ [EvGet url; EvOpen destination] ++
              (EvWrite fd <$> take (S (length done)) items) ++
              [EvClose fd] ++
              (if res is inr _ then [EvPrint success_message] else []))).
Proof.
  intros Hget Hst Hopen fd items done res. unfold try_body.
  rewrite bind_run, requests_get_run, Hget.
  rewrite bind_run, raise_for_status_run.
  rewrite bool_decide_eq_true_2 by (apply http_error_msg_no_error, Hst).
  rewrite bind_run. unfold with_open.
  rewrite bind_run, open_wb_run, Hopen. fold fd.
  unfold closing, for_in. simpl yields. simpl ending. fold items.
  rewrite (for_items_write E fd destination _ items _ []);
    [| apply lookup_insert_eq | apply lookup_insert_eq].
  rewrite f_close_run. simpl.
  rewrite insert_insert_eq, delete_insert_dom by apply is_fresh.
  fold done. subst res. unfold block_result. fold items.
  destruct (close_fault E destination) as [e|]; simpl.
  { rewrite app_nil_r, <- !app_assoc. reflexivity. }
  destruct (refused E [] items) as [e|]; simpl.
  { rewrite app_nil_r, <- !app_assoc. reflexivity. }
  destruct (raw_error r) as [e|]; simpl.
  { rewrite app_nil_r, <- !app_assoc. reflexivity. }
  rewrite print_run. unfold add_stdout, add_trace. simpl.
  rewrite <- !app_assoc. reflexivity.
Qed.
End TryBody.

(** ** The handlers *)

Lemma script_run (c : nat) (E : env) (w : world) :
  script c E w =
  match try_body c E w with
  | (inr v, w') => (inr v, w')
  | (inl e, w') =>
      if isinstance e RequestException then
        (inr tt, add_stdout (download_error e)
                   (add_trace (EvPrint (download_error e)) w'))
      else if isinstance e IOError then
        (inr tt, add_stdout (write_error e)
                   (add_trace (EvPrint (write_error e)) w'))
      else (inl e, w')
  end.
Proof.
  unfold script, try_except, handlers.
  destruct (try_body c E w) as [[e|[]] w']; [|reflexivity].
  simpl dispatch.
  destruct (isinstance e RequestException); [reflexivity|].
  destruct (isinstance e IOError); reflexivity.
Qed.

(** ** Whole runs *)

Lemma new_events_app (w w' : world) (evs : list event) :
  trace w' = (trace w ++ evs)%list → new_events w w' = evs.
Proof. unfold new_events. intros ->. apply drop_app_length. Qed.

Lemma chunk_size_positive : (0 < 8192)%nat.
Proof. apply Nat.ltb_lt. vm_compute. reflexivity. Qed.

Lemma serves_not_error (E : env) (B : list byte) :
  serves E B →
  ∃ r, http E url = inr r ∧ ¬ error_status r ∧ raw r = B ∧ raw_error r = None.
Proof.
  intros (r & Hget & Hst & Hraw & Herr). exists r.
  repeat split; try assumption. apply success_not_error, Hst.
Qed.

(** A run in which the file is opened, in full. *)
Lemma script_opened (c : nat) (E : env) (w : world) (r : Response) :
  http E url = inr r →
  ¬ error_status r →
  open_fault E destination = None →
  ∃ (said : list string),
    script c E w =
    (match block_result c E r with
     | inr _ => inr tt
     | inl e =>
         if isinstance e RequestException then inr tt
         else if isinstance e IOError then inr tt else inl e
     end,
     mkWorld (<[destination := concat (accepted E [] (chunks c (raw r)))]> (fs w))
             (fds w)
             (stdout w ++ said)
             (trace w ++ [EvGet url; EvOpen destination] ++
                (EvWrite (fresh (dom (fds w))) <$>
                   take (S (length (accepted E [] (chunks c (raw r)))))
                        (chunks c (raw r))) ++
                [EvClose (fresh (dom (fds w)))] ++ (EvPrint <$> said))) ∧
    said =
    match block_result c E r with
    | inr _ => [success_message]
    | inl e =>
        if isinstance e RequestException then [download_error e]
        else if isinstance e IOError then [write_error e] else []
    end.
Proof.
  intros Hget Hst Hopen.
  pose proof (try_body_opened c E w r Hget Hst Hopen) as Hbody.
  cbv zeta in Hbody. rewrite script_run, Hbody. clear Hbody.
  destruct (block_result c E r) as [e|[]].
  - destruct (isinstance e RequestException); [|destruct (isinstance e IOError)].
    + exists [download_error e]. split; [|reflexivity].
      unfold add_stdout, add_trace; simpl.
      rewrite <- !app_assoc; simpl. rewrite <- !app_assoc. reflexivity.
    + exists [write_error e]. split; [|reflexivity].
      unfold add_stdout, add_trace; simpl.
      rewrite <- !app_assoc; simpl. rewrite <- !app_assoc. reflexivity.
    + exists []. split; [|reflexivity]. simpl. rewrite !app_nil_r. reflexivity.
  - exists [success_message]. split; reflexivity.
Qed.

(** On a writable disk, with a complete stream, the block ends normally and
    all of the body is written. *)
Lemma block_result_ok (c : nat) (E : env) (r : Response) :
  writable E → raw_error r = None → block_result c E r = inr tt.
Proof.
  intros (_ & Hw & Hc) Herr. unfold block_result.
  rewrite Hc, (proj2 (accepted_all E _ Hw [])), Herr. reflexivity.
Qed.

Lemma script_success_path (c : nat) (E : env) (w : world) (B : list byte) :
  (0 < c)%nat →
  serves E B →
  writable E →
  script c E w =
  (inr tt,
   mkWorld (<[destination := B]> (fs w)) (fds w)
           (stdout w ++ [success_message])
           (trace w ++ [EvGet url; EvOpen destination] ++
              (EvWrite (fresh (dom (fds w))) <$> chunks c B) ++
              [EvClose (fresh (dom (fds w)));  EvPrint success_message])).
Proof.
  intros Hc Hs Hw.
  destruct (serves_not_error E B Hs) as (r & Hget & Hst & Hraw & Herr).
  destruct (script_opened c E w r Hget Hst (proj1 Hw)) as (said & Hrun & Hsaid).
  rewrite (block_result_ok c E r Hw Herr) in Hrun, Hsaid. subst said.
  rewrite Hrun.
  destruct Hw as (_ & Hw & _).
  rewrite (proj1 (accepted_all E _ Hw [])), Hraw, (chunks_concat c B Hc).
  rewrite take_ge by lia. reflexivity.
Qed.

(** C1.  Success path: when the GET for the fixed URL returns a 2xx status
    and the body [B] in full, and the disk takes the file, the run ends
    normally with the success message and the destination file holds exactly
    [B]: the concatenation of the chunks the streaming iterator yields, of
    the same length as the body. *)
Theorem success_path_file_equals_body
    (c : nat) (E : env) (w : world) (r : Response) :
  (0 < c)%nat →
  http E url = inr r →
  success_status r →
  raw_error r = None →
  writable E →
  outcome c E w = inr tt ∧
  stdout (after c E w) = (stdout w ++ [success_message])%list ∧
  ∃ contents,
    fs (after c E w) !! destination = Some contents ∧
    contents = raw r ∧
    contents = concat (yields (iter_content c r)) ∧
    length contents = length (raw r).
Proof.
  intros Hc Hget Hst Herr Hw.
  assert (serves E (raw r)) as Hs by (exists r; auto).
  unfold outcome, after. rewrite (script_success_path c E w (raw r) Hc Hs Hw).
  simpl. repeat split. exists (raw r). repeat split.
  - apply lookup_insert_eq.
  - symmetry. apply chunks_concat, Hc.
Qed.

Lemma success_path_file_equals_body_witness :
  (0 < 8192)%nat ∧
  http env_ok url = inr (mkResponse 200 "OK" url all_bytes None) ∧
  writable env_ok ∧
  outcome 8192 env_ok used_world = inr tt ∧
  stdout (after 8192 env_ok used_world) = [success_message] ∧
  ∃ contents,
    fs (after 8192 env_ok used_world) !! destination = Some contents ∧
    contents = all_bytes ∧
    contents = concat (yields (iter_content 8192
                 (mkResponse 200 "OK" url all_bytes None))) ∧
    length contents = 256%nat.
Proof.
  split; [exact chunk_size_positive|].
  split; [reflexivity|].
  split; [repeat split|].
  apply (success_path_file_equals_body 8192 env_ok used_world
           (mkResponse 200 "OK" url all_bytes None)).
  - exact chunk_size_positive.
  - reflexivity.
  - unfold success_status; simpl; lia.
  - reflexivity.
  - repeat split.
Defined.

(** The script as written, on the scenario of the specification: status 200
    with the 256 bytes 0x00..0xFF on a fresh machine. *)
Example scenario_256_bytes :
  outcome 8192 env_ok fresh_world = inr tt ∧
  fs (after 8192 env_ok fresh_world) !! destination = Some all_bytes ∧
  length all_bytes = 256%nat ∧
  stdout (after 8192 env_ok fresh_world) = [success_message].
Proof. vm_compute. repeat split. Qed.

Lemma isinstance_HTTPError (s : string) :
  isinstance (mkExn HTTPError s) RequestException = true.
Proof. reflexivity. Qed.

Lemma script_error_status (c : nat) (E : env) (w : world) (r : Response) :
  http E url = inr r →
  error_status r →
  script c E w =
  (inr tt,
   mkWorld (fs w) (fds w)
     (stdout w ++ [download_error (mkExn HTTPError (http_error_msg r))])
     (trace w ++
        [EvGet url;
         EvPrint (download_error (mkExn HTTPError (http_error_msg r)))])).
Proof.
  intros Hget Hst.
  rewrite script_run, (try_body_error_status c E w r Hget Hst).
  rewrite isinstance_HTTPError. unfold add_stdout, add_trace. simpl.
  rewrite <- app_assoc. reflexivity.
Qed.

(** C2.  A 4xx or 5xx status makes the run fail at the status check, before
    the destination is opened: the files on disk are what they were, no open
    or write was attempted (the run consists of the request and one print),
    and the network-error message is printed. *)
Theorem error_status_leaves_disk_untouched
    (c : nat) (E : env) (w : world) (r : Response) :
  http E url = inr r →
  error_status r →
  fs (after c E w) = fs w ∧
  fds (after c E w) = fds w ∧
  new_events w (after c E w) =
    [EvGet url; EvPrint (download_error (mkExn HTTPError (http_error_msg r)))] ∧
  stdout (after c E w) =
    (stdout w ++ [download_error (mkExn HTTPError (http_error_msg r))])%list ∧
  outcome c E w = inr tt.
Proof.
  intros Hget Hst. unfold after, outcome.
  rewrite (script_error_status c E w r Hget Hst). simpl.
  repeat split. apply new_events_app. reflexivity.
Qed.

Lemma error_status_leaves_disk_untouched_witness :
  http env_forbidden url =
    inr (mkResponse 403 "Forbidden" url
           [x46; x6f; x72; x62; x69; x64; x64; x65; x6e] None) ∧
  (400 ≤ 403 < 600)%Z ∧
  fs (after 8192 env_forbidden used_world) = fs used_world ∧
  fds (after 8192 env_forbidden used_world) = fds used_world ∧
  new_events used_world (after 8192 env_forbidden used_world) =
    [EvGet url;
     EvPrint "Error downloading the model: 403 Client Error: Forbidden for url: https://media.roboflow.com/yolov8n.onnx"] ∧
  stdout (after 8192 env_forbidden used_world) =
    ["Error downloading the model: 403 Client Error: Forbidden for url: https://media.roboflow.com/yolov8n.onnx"] ∧
  outcome 8192 env_forbidden used_world = inr tt.
Proof.
  split; [reflexivity|]. split; [lia|].
  apply (error_status_leaves_disk_untouched 8192 env_forbidden used_world
           (mkResponse 403 "Forbidden" url
              [x46; x6f; x72; x62; x69; x64; x64; x65; x6e] None)).
  - reflexivity.
  - unfold error_status; simpl; lia.
Defined.

(** The second scenario of the specification: status 403 on a fresh machine
    leaves no file at the destination. *)
Example scenario_403 :
  fs (after 8192 env_forbidden fresh_world) !! destination = None ∧
  stdout (after 8192 env_forbidden fresh_world) =
    ["Error downloading the model: 403 Client Error: Forbidden for url: https://media.roboflow.com/yolov8n.onnx"].
Proof. vm_compute. repeat split. Qed.

(** ** Chunk size *)

(** On a disk that refuses no write, all that arrived is written. *)
Lemma written_any_chunk_size (c : nat) (E : env) (r : Response) :
  (0 < c)%nat →
  (∀ cur chunk, write_fault E cur chunk = None) →
  concat (accepted E [] (chunks c (raw r))) = raw r.
Proof.
  intros Hc Hw. rewrite (proj1 (accepted_all E _ Hw [])).
  apply chunks_concat, Hc.
Qed.

(** A complete stream written to a disk that refuses no write and closes
    the file: the block ends normally, for every chunk size. *)
Lemma block_result_complete (c : nat) (E : env) (r : Response) :
  raw_error r = None →
  (∀ cur chunk, write_fault E cur chunk = None) →
  close_fault E destination = None →
  block_result c E r = inr tt.
Proof.
  intros Herr Hw Hcl. unfold block_result.
  rewrite Hcl, (proj2 (accepted_all E _ Hw [])), Herr. reflexivity.
Qed.

Lemma script_two_chunk_sizes
    (c1 c2 : nat) (E : env) (w : world) (r : Response) :
  (0 < c1)%nat →
  (0 < c2)%nat →
  http E url = inr r →
  raw_error r = None →
  (∀ cur chunk, write_fault E cur chunk = None) →
  close_fault E destination = None →
  (script c1 E w).1 = (script c2 E w).1 ∧
  fs (script c1 E w).2 = fs (script c2 E w).2 ∧
  fds (script c1 E w).2 = fds (script c2 E w).2 ∧
  stdout (script c1 E w).2 = stdout (script c2 E w).2.
Proof.
  intros Hc1 Hc2 Hget Herr Hw Hcl.
  destruct (decide (error_status r)) as [Hst|Hst].
  { rewrite !script_run, !(try_body_error_status _ E w r Hget Hst). auto. }
  destruct (open_fault E destination) as [e|] eqn:Hopen.
  { rewrite !script_run, !(try_body_open_fails _ E w r e Hget Hst Hopen). auto. }
  destruct (script_opened c1 E w r Hget Hst Hopen) as (said1 & Hrun1 & Hsaid1).
  destruct (script_opened c2 E w r Hget Hst Hopen) as (said2 & Hrun2 & Hsaid2).
  rewrite (block_result_complete c1 E r Herr Hw Hcl) in Hrun1, Hsaid1.
  rewrite (block_result_complete c2 E r Herr Hw Hcl) in Hrun2, Hsaid2.
  rewrite (written_any_chunk_size c1 E r Hc1 Hw) in Hrun1.
  rewrite (written_any_chunk_size c2 E r Hc2 Hw) in Hrun2.
  rewrite Hrun1, Hrun2, Hsaid1, Hsaid2. simpl. auto.
Qed.

(** C3.  Chunking transparency: when the server answers with a body that
    arrives in full, and the disk refuses no write and closes the file, the
    run with any positive chunk size leaves the same files with the same
    contents, prints the same lines and ends the same way as the run with
    chunks of 8192 bytes, whatever the status of the answer and whatever was
    on the machine before; where the file is written, it holds the body. *)
Theorem chunk_size_transparent
    (c : nat) (E : env) (w : world) (r : Response) :
  (0 < c)%nat →
  http E url = inr r →
  raw_error r = None →
  (∀ cur chunk, write_fault E cur chunk = None) →
  close_fault E destination = None →
  fs (after c E w) = fs (download_helper E w).2 ∧
  stdout (after c E w) = stdout (download_helper E w).2 ∧
  fds (after c E w) = fds (download_helper E w).2 ∧
  outcome c E w = (download_helper E w).1 ∧
  (¬ error_status r → open_fault E destination = None →
   fs (after c E w) !! destination = Some (raw r) ∧
   fs (download_helper E w).2 !! destination = Some (raw r)).
Proof.
  intros Hc Hget Herr Hw Hcl. unfold after, outcome, download_helper.
  destruct (script_two_chunk_sizes c 8192 E w r Hc chunk_size_positive
              Hget Herr Hw Hcl) as (H1 & H2 & H3 & H4).
  split; [exact H2|]. split; [exact H4|]. split; [exact H3|].
  split; [exact H1|].
  intros Hst Hopen.
  assert (fs (script c E w).2 !! destination = Some (raw r)) as Hfile.
  { destruct (script_opened c E w r Hget Hst Hopen) as (said & -> & _).
    simpl. rewrite (written_any_chunk_size c E r Hc Hw).
    apply lookup_insert_eq. }
  split; [exact Hfile | rewrite <- H2; exact Hfile].
Qed.

Lemma chunk_size_transparent_witness :
  (0 < 7)%nat ∧
  http env_ok url = inr (mkResponse 200 "OK" url all_bytes None) ∧
  (∀ cur chunk, write_fault env_ok cur chunk = None) ∧
  close_fault env_ok destination = None ∧
  fs (after 7 env_ok used_world) = fs (download_helper env_ok used_world).2 ∧
  stdout (after 7 env_ok used_world) =
    stdout (download_helper env_ok used_world).2 ∧
  fds (after 7 env_ok used_world) = fds (download_helper env_ok used_world).2 ∧
  outcome 7 env_ok used_world = (download_helper env_ok used_world).1 ∧
  (¬ error_status (mkResponse 200 "OK" url all_bytes None) →
   open_fault env_ok destination = None →
   fs (after 7 env_ok used_world) !! destination = Some all_bytes ∧
   fs (download_helper env_ok used_world).2 !! destination = Some all_bytes).
Proof.
  split; [lia|]. split; [reflexivity|]. split; [reflexivity|].
  split; [reflexivity|].
  apply (chunk_size_transparent 7 env_ok used_world
           (mkResponse 200 "OK" url all_bytes None));
    [lia | reflexivity | reflexivity | reflexivity | reflexivity].
Defined.

(** The body comes back from its chunks for every positive chunk size, and
    the pieces differ with the size. *)
Example chunks_of_7_and_8192 :
  length (chunks 7 all_bytes) = 37%nat ∧
  length (chunks 8192 all_bytes) = 1%nat ∧
  concat (chunks 7 all_bytes) = concat (chunks 8192 all_bytes).
Proof. vm_compute. repeat split. Qed.

(** ** Which message reports a failure *)

(** Where the [try] body fails, it has printed nothing and sent one
    request. *)
Lemma try_body_failure_silent (c : nat) (E : env) (w : world) (e : exn) :
  (try_body c E w).1 = inl e →
  stdout (try_body c E w).2 = stdout w ∧
  ∃ evs, trace (try_body c E w).2 = (trace w ++ evs)%list ∧
         requests_sent evs = 1%nat ∧
         ∀ line, EvPrint line ∉ evs.
Proof.
  assert (∀ fd (l : list (list byte)) line,
            EvPrint line ∉ (EvWrite fd <$> l)) as Hnp.
  { intros fd l line [ch [Hch _]]%list_elem_of_fmap. discriminate. }
  assert (∀ fd (l : list (list byte)),
            filter (λ ev, is_get ev = true) (EvWrite fd <$> l) = []) as Hng.
  { intros fd l. induction l as [|ch l IH]; [reflexivity|].
    rewrite fmap_cons, filter_cons_False by (simpl; discriminate). exact IH. }
  destruct (http E url) as [e'|r] eqn:Hget.
  { rewrite (try_body_no_response c E w e' Hget). simpl. intros _.
    split; [reflexivity|]. exists [EvGet url]. repeat split.
    intros line Hin. apply list_elem_of_singleton in Hin. discriminate. }
  destruct (decide (error_status r)) as [Hst|Hst].
  { rewrite (try_body_error_status c E w r Hget Hst). simpl. intros _.
    split; [reflexivity|]. exists [EvGet url]. repeat split.
    intros line Hin. apply list_elem_of_singleton in Hin. discriminate. }
  destruct (open_fault E destination) as [e'|] eqn:Hopen.
  { rewrite (try_body_open_fails c E w r e' Hget Hst Hopen). simpl. intros _.
    split; [reflexivity|]. exists [EvGet url; EvOpen destination].
    split; [rewrite <- app_assoc; reflexivity|]. split; [reflexivity|].
    intros line Hin. repeat (apply elem_of_cons in Hin as [Hin|Hin]; [discriminate|]).
    inversion Hin. }
  pose proof (try_body_opened c E w r Hget Hst Hopen) as Hbody.
  cbv zeta in Hbody. rewrite Hbody. clear Hbody. simpl.
  intros Hres. rewrite Hres. split; [apply app_nil_r|].
  eexists. split; [reflexivity|]. split.
  - unfold requests_sent. rewrite filter_cons_True by reflexivity.
    rewrite filter_cons_False by (simpl; discriminate).
    rewrite filter_app, Hng. reflexivity.
  - intros line Hin.
    repeat (apply elem_of_cons in Hin as [Hin|Hin]; [discriminate|]).
    apply elem_of_app in Hin as [Hin|Hin]; [exact (Hnp _ _ _ Hin)|].
    repeat (apply elem_of_cons in Hin as [Hin|Hin]; [discriminate|]).
    inversion Hin.
Qed.

(** A failure of the [try] body is reported by the first clause that
    matches its class. *)
Lemma script_reports (c : nat) (E : env) (w : world) (e : exn) :
  (try_body c E w).1 = inl e →
  (isinstance e RequestException = true →
     outcome c E w = inr tt ∧
     stdout (after c E w) = (stdout w ++ [download_error e])%list) ∧
  (isinstance e RequestException = false →
   isinstance e IOError = true →
     outcome c E w = inr tt ∧
     stdout (after c E w) = (stdout w ++ [write_error e])%list) ∧
  (isinstance e RequestException = false →
   isinstance e IOError = false →
     outcome c E w = inl e ∧ stdout (after c E w) = stdout w).
Proof.
  intros Hres.
  destruct (try_body_failure_silent c E w e Hres) as [Hout _].
  unfold outcome, after. rewrite script_run.
  destruct (try_body c E w) as [res w1]. simpl in Hres, Hout. subst res.
  repeat split; intros; simplify_eq;
    repeat match goal with H : isinstance _ _ = _ |- _ => rewrite H end;
    simpl; congruence.
Qed.

(** After the status check, the [try] body fails the way opening the file
    fails, or else ends the way the block ends. *)
Lemma try_body_after_status_check
    (c : nat) (E : env) (w : world) (r : Response) :
  http E url = inr r →
  ¬ error_status r →
  (try_body c E w).1 =
  match open_fault E destination with
  | Some e => inl e
  | None => block_result c E r
  end.
Proof.
  intros Hget Hst. destruct (open_fault E destination) as [e|] eqn:Hopen.
  - rewrite (try_body_open_fails c E w r e Hget Hst Hopen). reflexivity.
  - pose proof (try_body_opened c E w r Hget Hst Hopen) as Hbody.
    cbv zeta in Hbody. rewrite Hbody. reflexivity.
Qed.




(** ** The file handle *)

(** No run leaves a descriptor open that was not open before, however the
    run ends. *)
Lemma descriptors_restored (c : nat) (E : env) (w : world) :
  fds (after c E w) = fds w.
Proof.
  unfold after.
  destruct (http E url) as [e|r] eqn:Hget.
  { rewrite script_run, (try_body_no_response c E w e Hget).
    repeat case_match; reflexivity. }
  destruct (decide (error_status r)) as [Hst|Hst].
  { rewrite (script_error_status c E w r Hget Hst). reflexivity. }
  destruct (open_fault E destination) as [e|] eqn:Hopen.
  { rewrite script_run, (try_body_open_fails c E w r e Hget Hst Hopen).
    repeat case_match; reflexivity. }
  destruct (script_opened c E w r Hget Hst Hopen) as (said & -> & _).
  reflexivity.
Qed.

(** C5.  Whenever the destination file has been opened, it is closed before
    the run finishes, however the block is left (the loop completes, a write
    or the stream raises, the exception is caught later or not): the run's
    calls are the request, the open, writes through the new descriptor, the
    close of that descriptor, and then at most prints; afterwards the
    descriptor is no longer open and the table of open descriptors is what
    it was before the run. *)
Theorem file_closed_on_every_exit
    (c : nat) (E : env) (w : world) (r : Response) :
  http E url = inr r →
  ¬ error_status r →
  open_fault E destination = None →
  let fd := fresh (dom (fds w)) in
  (∃ (written : list (list byte)) (said : list string),
     new_events w (after c E w) =
       ([EvGet url; EvOpen destination] ++ (EvWrite fd <$> written) ++
        [EvClose fd] ++ (EvPrint <$> said))%list) ∧
  fds (after c E w) !! fd = None ∧
  fds (after c E w) = fds w.
Proof.
  intros Hget Hst Hopen fd.
  assert (fds (after c E w) = fds w) as Hfds by apply descriptors_restored.
  split; [|split; [|exact Hfds]].
  - unfold after.
    destruct (script_opened c E w r Hget Hst Hopen) as (said & -> & _).
    eexists _, said. apply new_events_app. reflexivity.
  - rewrite Hfds. apply not_elem_of_dom, is_fresh.
Qed.

Lemma file_closed_on_every_exit_witness :
  http env_interrupted url = inr (mkResponse 200 "OK" url all_bytes None) ∧
  open_fault env_interrupted destination = None ∧
  outcome 8192 env_interrupted used_world = inl interrupted ∧
  (∃ (written : list (list byte)) (said : list string),
     new_events used_world (after 8192 env_interrupted used_world) =
       ([EvGet url; EvOpen destination] ++ (EvWrite 0 <$> written) ++
        [EvClose 0] ++ (EvPrint <$> said))%list) ∧
  fds (after 8192 env_interrupted used_world) !! 0%nat = None ∧
  fds (after 8192 env_interrupted used_world) = fds used_world.
Proof.
  split; [reflexivity|]. split; [reflexivity|]. split; [vm_compute; reflexivity|].
  apply (file_closed_on_every_exit 8192 env_interrupted used_world
           (mkResponse 200 "OK" url all_bytes None)).
  - reflexivity.
  - unfold error_status; simpl; lia.
  - reflexivity.
Defined.

(** ** File errors *)

(** C6.  The response succeeds but the destination cannot be written: the
    file operations fail with an I/O error [e], raised by [open], or by a
    write (closing then succeeds), or by closing the file.  The run prints
    the I/O-error message, which ends with the description of that error,
    and terminates normally: no exception leaves the script. *)
Theorem unwritable_destination_reported
    (c : nat) (E : env) (w : world) (r : Response) (e : exn) :
  http E url = inr r →
  success_status r →
  isinstance e IOError = true →
  isinstance e RequestException = false →
  (open_fault E destination = Some e ∨
   (open_fault E destination = None ∧
    refused E [] (chunks c (raw r)) = Some e ∧
    close_fault E destination = None) ∨
   (open_fault E destination = None ∧
    close_fault E destination = Some e)) →
  outcome c E w = inr tt ∧
  stdout (after c E w) = (stdout w ++ [write_error e])%list ∧
  write_error e = "Error writing the model to file: " ++ exn_str e.
Proof.
  intros Hget Hst%success_not_error Hio Hreq Hfail.
  assert ((try_body c E w).1 = inl e) as Hres.
  { rewrite (try_body_after_status_check c E w r Hget Hst).
    unfold block_result.
    destruct Hfail as [->|[(-> & Href & Hcl)|(-> & Hcl)]].
    - reflexivity.
    - rewrite Hcl, Href. reflexivity.
    - rewrite Hcl. reflexivity. }
  destruct (script_reports c E w e Hres) as (_ & Hrep & _).
  destruct (Hrep Hreq Hio) as [Hout Hsaid]. auto.
Qed.

Lemma unwritable_destination_reported_witness :
  http env_missing_dir url = inr (mkResponse 200 "OK" url all_bytes None) ∧
  (200 ≤ 200 < 300)%Z ∧
  isinstance no_such_directory IOError = true ∧
  isinstance no_such_directory RequestException = false ∧
  open_fault env_missing_dir destination = Some no_such_directory ∧
  outcome 8192 env_missing_dir fresh_world = inr tt ∧
  stdout (after 8192 env_missing_dir fresh_world) =
    ["Error writing the model to file: [Errno 2] No such file or directory: 'public/yolov8n.onnx'"] ∧
  write_error no_such_directory =
    "Error writing the model to file: " ++ exn_str no_such_directory.
Proof.
  split; [reflexivity|]. split; [lia|]. split; [reflexivity|].
  split; [reflexivity|]. split; [reflexivity|].
  apply (unwritable_destination_reported 8192 env_missing_dir fresh_world
           (mkResponse 200 "OK" url all_bytes None) no_such_directory).
  - reflexivity.
  - unfold success_status; simpl; lia.
  - reflexivity.
  - reflexivity.
  - left. reflexivity.
Defined.

(** The other way the destination can be unwritable: the disk fills up
    during the transfer. *)
Example scenario_disk_full :
  open_fault env_disk_full destination = None ∧
  refused env_disk_full [] (chunks 7 all_bytes) = Some disk_full ∧
  outcome 7 env_disk_full fresh_world = inr tt ∧
  stdout (after 7 env_disk_full fresh_world) =
    ["Error writing the model to file: [Errno 28] No space left on device"].
Proof. vm_compute. repeat split. Qed.

(** ** Running twice *)

(** C7.  Two runs in succession against a server that delivers the same
    body: after each of them the destination holds that body, the files on
    disk are the same after the second run as after the first, and the
    second run asks nothing: it sends the request, opens the existing file
    anew (which empties it), writes pieces that together are the body,
    closes and prints. *)
Theorem second_run_same_contents
    (c : nat) (E1 E2 : env) (w : world) (B : list byte) :
  (0 < c)%nat →
  serves E1 B → writable E1 →
  serves E2 B → writable E2 →
  fs (after c E1 w) !! destination = Some B ∧
  fs (after c E2 (after c E1 w)) !! destination = Some B ∧
  fs (after c E2 (after c E1 w)) = fs (after c E1 w) ∧
  outcome c E1 w = inr tt ∧
  outcome c E2 (after c E1 w) = inr tt ∧
  ∃ written : list (list byte),
    concat written = B ∧
    new_events (after c E1 w) (after c E2 (after c E1 w)) =
      ([EvGet url; EvOpen destination] ++
       (EvWrite (fresh (dom (fds w))) <$> written) ++
       [EvClose (fresh (dom (fds w))); EvPrint success_message])%list.
Proof.
  intros Hc Hs1 Hw1 Hs2 Hw2. unfold after, outcome.
  rewrite (script_success_path c E1 w B Hc Hs1 Hw1). cbn [fst snd].
  rewrite (script_success_path c E2 _ B Hc Hs2 Hw2). cbn [fst snd fs fds].
  rewrite insert_insert_eq, lookup_insert_eq.
  repeat split. exists (chunks c B).
  split; [apply chunks_concat, Hc|].
  apply new_events_app. reflexivity.
Qed.

Lemma second_run_same_contents_witness :
  (0 < 8192)%nat ∧
  serves env_ok all_bytes ∧ writable env_ok ∧
  fs (after 8192 env_ok used_world) !! destination = Some all_bytes ∧
  fs (after 8192 env_ok (after 8192 env_ok used_world)) !! destination =
    Some all_bytes ∧
  fs (after 8192 env_ok (after 8192 env_ok used_world)) =
    fs (after 8192 env_ok used_world) ∧
  outcome 8192 env_ok used_world = inr tt ∧
  outcome 8192 env_ok (after 8192 env_ok used_world) = inr tt ∧
  ∃ written : list (list byte),
    concat written = all_bytes ∧
    new_events (after 8192 env_ok used_world)
               (after 8192 env_ok (after 8192 env_ok used_world)) =
      ([EvGet url; EvOpen destination] ++
       (EvWrite 0 <$> written) ++
       [EvClose 0; EvPrint success_message])%list.
Proof.
  assert (serves env_ok all_bytes) as Hs.
  { exists (mkResponse 200 "OK" url all_bytes None).
    repeat split; unfold success_status; simpl; lia. }
  assert (writable env_ok) as Hw by (repeat split).
  split; [exact chunk_size_positive|]. split; [exact Hs|]. split; [exact Hw|].
  apply (second_run_same_contents 8192 env_ok env_ok used_world all_bytes
           chunk_size_positive Hs Hw Hs Hw).
Defined.

(** ** The top-level handlers *)

Lemma error_messages_distinct (e e' : exn) :
  download_error e ≠ success_message ∧
  write_error e ≠ success_message ∧
  download_error e ≠ write_error e'.
Proof. unfold download_error, write_error, success_message. simpl. repeat split; discriminate. Qed.



(** An exception of neither kind is not handled: it leaves the script and
    nothing is printed. *)
Example scenario_interrupted :
  outcome 8192 env_interrupted fresh_world = inl interrupted ∧
  stdout (after 8192 env_interrupted fresh_world) = [] ∧
  fds (after 8192 env_interrupted fresh_world) = ∅.
Proof. vm_compute. repeat split. Qed.

(** ** What a failed transfer leaves behind *)




(** ** Empty body *)

(** C10.  A 2xx response with an empty body: the iterator yields no chunk,
    the destination is still opened, so it exists afterwards with no bytes
    in it whatever it held before, nothing is written, and the success
    message is printed. *)
Theorem empty_body_creates_empty_file
    (c : nat) (E : env) (w : world) (r : Response) :
  http E url = inr r →
  success_status r →
  raw r = [] →
  raw_error r = None →
  open_fault E destination = None →
  close_fault E destination = None →
  yields (iter_content c r) = [] ∧
  outcome c E w = inr tt ∧
  fs (after c E w) = <[destination := []]> (fs w) ∧
  fs (after c E w) !! destination = Some [] ∧
  stdout (after c E w) = (stdout w ++ [success_message])%list ∧
  new_events w (after c E w) =
    [EvGet url; EvOpen destination; EvClose (fresh (dom (fds w)));
     EvPrint success_message].
Proof.
  intros Hget Hst%success_not_error Hraw Herr Hopen Hclose.
  destruct (script_opened c E w r Hget Hst Hopen) as (said & Hrun & Hsaid).
  unfold block_result in Hrun, Hsaid.
  rewrite Hclose, Hraw, chunks_nil, Herr in Hrun, Hsaid. simpl in Hrun, Hsaid.
  subst said. unfold outcome, after. rewrite Hrun. simpl.
  split; [rewrite Hraw; reflexivity|].
  repeat split.
  - apply lookup_insert_eq.
  - apply new_events_app. reflexivity.
Qed.

Lemma empty_body_creates_empty_file_witness :
  http env_empty url = inr (mkResponse 200 "OK" url [] None) ∧
  (200 ≤ 200 < 300)%Z ∧
  fs used_world !! destination = Some [xde; xad; xbe; xef; x00; x01] ∧
  yields (iter_content 8192 (mkResponse 200 "OK" url [] None)) = [] ∧
  outcome 8192 env_empty used_world = inr tt ∧
  fs (after 8192 env_empty used_world) = <[destination := []]> (fs used_world) ∧
  fs (after 8192 env_empty used_world) !! destination = Some [] ∧
  stdout (after 8192 env_empty used_world) = [success_message] ∧
  new_events used_world (after 8192 env_empty used_world) =
    [EvGet url; EvOpen destination; EvClose 0; EvPrint success_message].
Proof.
  split; [reflexivity|]. split; [lia|]. split; [vm_compute; reflexivity|].
  apply (empty_body_creates_empty_file 8192 env_empty used_world
           (mkResponse 200 "OK" url [] None)).
  - reflexivity.
  - unfold success_status; simpl; lia.
  - reflexivity.
  - reflexivity.
  - reflexivity.
  - reflexivity.
Defined.

(** * Further properties of the script *)

(** ** The request itself fails *)

Lemma script_no_response (c : nat) (E : env) (w : world) (e : exn) :
  http E url = inl e →
  script c E w =
  if isinstance e RequestException then
    (inr tt, mkWorld (fs w) (fds w) (stdout w ++ [download_error e])
               (trace w ++ [EvGet url; EvPrint (download_error e)]))
  else if isinstance e IOError then
    (inr tt, mkWorld (fs w) (fds w) (stdout w ++ [write_error e])
               (trace w ++ [EvGet url; EvPrint (write_error e)]))
  else (inl e, add_trace (EvGet url) w).
Proof.
  intros Hget. rewrite script_run, (try_body_no_response c E w e Hget).
  repeat case_match; try reflexivity;
    unfold add_stdout, add_trace; simpl; rewrite <- app_assoc; reflexivity.
Qed.

(** X1.  When [requests.get] raises a [RequestException] (no connection, a
    timeout), the run ends normally with the network-error message made
    from the description of the exception; the status is never checked and
    the destination is never opened, so the files on disk are what they
    were. *)
Theorem request_failure_reported
    (c : nat) (E : env) (w : world) (e : exn) :
  http E url = inl e →
  isinstance e RequestException = true →
  outcome c E w = inr tt ∧
  stdout (after c E w) = (stdout w ++ [download_error e])%list ∧
  fs (after c E w) = fs w ∧
  fds (after c E w) = fds w ∧
  new_events w (after c E w) = [EvGet url; EvPrint (download_error e)].
Proof.
  intros Hget Hreq. unfold outcome, after.
  rewrite (script_no_response c E w e Hget), Hreq. simpl.
  repeat split. apply new_events_app. reflexivity.
Qed.

Lemma request_failure_reported_witness :
  http env_offline url = inl no_route ∧
  isinstance no_route RequestException = true ∧
  outcome 8192 env_offline used_world = inr tt ∧
  stdout (after 8192 env_offline used_world) =
    ["Error downloading the model: HTTPSConnectionPool(host='media.roboflow.com', port=443): Max retries exceeded"] ∧
  fs (after 8192 env_offline used_world) = fs used_world ∧
  fds (after 8192 env_offline used_world) = fds used_world ∧
  new_events used_world (after 8192 env_offline used_world) =
    [EvGet url; EvPrint (download_error no_route)].
Proof.
  split; [reflexivity|]. split; [reflexivity|].
  apply (request_failure_reported 8192 env_offline used_world no_route);
    reflexivity.
Defined.

(** X2.  The second clause catches every [IOError] of the [try] block, also
    one that [requests.get] raises before any file is touched: such an
    exception, when it is not a [RequestException], is reported with the
    file-write message although the destination was never opened. *)
Theorem request_oserror_reported_as_write_error
    (c : nat) (E : env) (w : world) (e : exn) :
  http E url = inl e →
  isinstance e RequestException = false →
  isinstance e IOError = true →
  outcome c E w = inr tt ∧
  stdout (after c E w) = (stdout w ++ [write_error e])%list ∧
  fs (after c E w) = fs w ∧
  new_events w (after c E w) = [EvGet url; EvPrint (write_error e)].
Proof.
  intros Hget Hreq Hio. unfold outcome, after.
  rewrite (script_no_response c E w e Hget), Hreq, Hio. simpl.
  repeat split. apply new_events_app. reflexivity.
Qed.

Lemma request_oserror_reported_as_write_error_witness :
  http env_no_ca_bundle url = inl no_ca_bundle ∧
  isinstance no_ca_bundle RequestException = false ∧
  isinstance no_ca_bundle IOError = true ∧
  outcome 8192 env_no_ca_bundle fresh_world = inr tt ∧
  stdout (after 8192 env_no_ca_bundle fresh_world) =
    ["Error writing the model to file: Could not find a suitable TLS CA certificate bundle, invalid path: /etc/ssl/cert.pem"] ∧
  fs (after 8192 env_no_ca_bundle fresh_world) = fs fresh_world ∧
  new_events fresh_world (after 8192 env_no_ca_bundle fresh_world) =
    [EvGet url; EvPrint (write_error no_ca_bundle)].
Proof.
  split; [reflexivity|]. split; [reflexivity|]. split; [reflexivity|].
  apply (request_oserror_reported_as_write_error 8192 env_no_ca_bundle
           fresh_world no_ca_bundle); reflexivity.
Defined.

(** ** Statuses that are neither 2xx nor 4xx/5xx *)

(** X3.  The status check rejects 400..599 only.  A response with any other
    status (1xx, 3xx, 600 and above) is treated like a success: with the
    stream complete and the disk taking the file, its body replaces the
    destination and the success message is printed. *)
Theorem any_other_status_is_saved
    (c : nat) (E : env) (w : world) (r : Response) :
  (0 < c)%nat →
  http E url = inr r →
  ¬ error_status r →
  raw_error r = None →
  writable E →
  outcome c E w = inr tt ∧
  fs (after c E w) = <[destination := raw r]> (fs w) ∧
  stdout (after c E w) = (stdout w ++ [success_message])%list.
Proof.
  intros Hc Hget Hst Herr Hw.
  destruct (script_opened c E w r Hget Hst (proj1 Hw)) as (said & Hrun & Hsaid).
  rewrite (block_result_ok c E r Hw Herr) in Hrun, Hsaid. subst said.
  rewrite (written_any_chunk_size c E r Hc (proj1 (proj2 Hw))) in Hrun.
  unfold outcome, after. rewrite Hrun. simpl. repeat split.
Qed.

Lemma any_other_status_is_saved_witness :
  (0 < 8192)%nat ∧
  http env_multiple_choices url =
    inr (mkResponse 300 "Multiple Choices" url [x3c; x68; x31; x3e] None) ∧
  ¬ (400 ≤ 300 < 600)%Z ∧
  writable env_multiple_choices ∧
  outcome 8192 env_multiple_choices used_world = inr tt ∧
  fs (after 8192 env_multiple_choices used_world) =
    <[destination := [x3c; x68; x31; x3e]]> (fs used_world) ∧
  stdout (after 8192 env_multiple_choices used_world) = [success_message].
Proof.
  split; [exact chunk_size_positive|]. split; [reflexivity|].
  split; [lia|]. split; [repeat split|].
  apply (any_other_status_is_saved 8192 env_multiple_choices used_world
           (mkResponse 300 "Multiple Choices" url [x3c; x68; x31; x3e] None)).
  - exact chunk_size_positive.
  - reflexivity.
  - unfold error_status; simpl; lia.
  - reflexivity.
  - repeat split.
Defined.

(** ** What a run does to the disk *)

(** The files on disk after a run, in every case: the run changes the disk
    only by opening the destination, and what the destination then holds
    does not depend on what was there. *)
Lemma disk_after_run (c : nat) (E : env) (w : world) :
  fs (after c E w) =
  match http E url with
  | inl _ => fs w
  | inr r =>
      if decide (error_status r) then fs w
      else
        match open_fault E destination with
        | Some _ => fs w
        | None =>
            <[destination := concat (accepted E [] (chunks c (raw r)))]> (fs w)
        end
  end.
Proof.
  unfold after.
  destruct (http E url) as [e|r] eqn:Hget.
  { rewrite (script_no_response c E w e Hget). repeat case_match; reflexivity. }
  destruct (decide (error_status r)) as [Hst|Hst].
  { rewrite (script_error_status c E w r Hget Hst). reflexivity. }
  destruct (open_fault E destination) as [e|] eqn:Hopen.
  { rewrite script_run, (try_body_open_fails c E w r e Hget Hst Hopen).
    repeat case_match; reflexivity. }
  destruct (script_opened c E w r Hget Hst Hopen) as (said & -> & _).
  reflexivity.
Qed.

(** X4.  No run touches a file other than the destination: every other
    path holds after the run what it held before, and a path that did not
    exist still does not. *)
Theorem other_files_untouched
    (c : nat) (E : env) (w : world) (path : string) :
  path ≠ destination →
  fs (after c E w) !! path = fs w !! path.
Proof.
  intros Hne. rewrite disk_after_run.
  repeat case_match; try reflexivity.
  apply lookup_insert_ne. congruence.
Qed.

Lemma other_files_untouched_witness :
  "public/index.html" ≠ destination ∧
  fs (after 8192 env_ok used_world) !! "public/index.html" =
    fs used_world !! "public/index.html".
Proof.
  split; [discriminate|].
  apply (other_files_untouched 8192 env_ok used_world "public/index.html").
  discriminate.
Defined.

(** X5.  Once the destination has been opened, what it held before is gone,
    however the transfer ends: the disk after the run is the same whatever
    the destination held before, and the destination holds bytes of this
    run's stream only (a prefix of the bytes that arrived). *)
Theorem previous_contents_discarded
    (c : nat) (E : env) (w : world) (r : Response) (old : list byte) :
  (0 < c)%nat →
  http E url = inr r →
  ¬ error_status r →
  open_fault E destination = None →
  fs (after c E (set_fs (<[destination := old]> (fs w)) w)) = fs (after c E w) ∧
  ∃ written : list byte,
    fs (after c E (set_fs (<[destination := old]> (fs w)) w)) !! destination =
      Some written ∧
    written `prefix_of` raw r.
Proof.
  intros Hc Hget Hst Hopen.
  rewrite !disk_after_run, Hget, Hopen.
  destruct (decide (error_status r)) as [Hbad|_]; [contradiction|]. simpl.
  rewrite insert_insert_eq. split; [reflexivity|].
  exists (concat (accepted E [] (chunks c (raw r)))).
  split; [apply lookup_insert_eq|].
  rewrite <- (chunks_concat c (raw r) Hc) at 2.
  destruct (accepted_prefix E (chunks c (raw r)) []) as [k Hk].
  rewrite Hk at 2. rewrite concat_app. apply prefix_app_r. reflexivity.
Qed.

Lemma previous_contents_discarded_witness :
  (0 < 8192)%nat ∧
  http env_disk_full url = inr (mkResponse 200 "OK" url all_bytes None) ∧
  ¬ (400 ≤ 200 < 600)%Z ∧
  open_fault env_disk_full destination = None ∧
  fs (after 8192 env_disk_full
        (set_fs (<[destination := [xde; xad]]> (fs fresh_world)) fresh_world)) =
    fs (after 8192 env_disk_full fresh_world) ∧
  ∃ written : list byte,
    fs (after 8192 env_disk_full
          (set_fs (<[destination := [xde; xad]]> (fs fresh_world)) fresh_world))
      !! destination = Some written ∧
    written `prefix_of` all_bytes.
Proof.
  split; [exact chunk_size_positive|].
  split; [reflexivity|]. split; [lia|]. split; [reflexivity|].
  apply (previous_contents_discarded 8192 env_disk_full fresh_world
           (mkResponse 200 "OK" url all_bytes None) [xde; xad]).
  - exact chunk_size_positive.
  - reflexivity.
  - unfold error_status; simpl; lia.
  - reflexivity.
Defined.

(** X6.  Running the script a second time against the same outside world
    leaves the disk and the open descriptors exactly as the first run left
    them, on every path: success, failed request, rejected status, failed
    open, transfer broken off. *)
Theorem rerun_leaves_same_disk (c : nat) (E : env) (w : world) :
  fs (after c E (after c E w)) = fs (after c E w) ∧
  fds (after c E (after c E w)) = fds (after c E w).
Proof.
  split; [|apply descriptors_restored].
  rewrite (disk_after_run c E (after c E w)).
  rewrite (disk_after_run c E w).
  repeat case_match; try reflexivity.
  apply insert_insert_eq.
Qed.

(** X7.  When [open] fails, the run neither writes nor closes anything and
    creates no file: the disk and the open descriptors are what they were,
    and the run's calls are the request, the failed open, and prints. *)
Theorem failed_open_leaves_disk_untouched
    (c : nat) (E : env) (w : world) (r : Response) (e : exn) :
  http E url = inr r →
  ¬ error_status r →
  open_fault E destination = Some e →
  fs (after c E w) = fs w ∧
  fds (after c E w) = fds w ∧
  ∃ said : list string,
    new_events w (after c E w) =
      ([EvGet url; EvOpen destination] ++ (EvPrint <$> said))%list ∧
    stdout (after c E w) = (stdout w ++ said)%list.
Proof.
  intros Hget Hst Hopen.
  split.
  { rewrite disk_after_run, Hget, Hopen.
    destruct (decide (error_status r)); reflexivity. }
  split; [apply descriptors_restored|].
  unfold after.
  rewrite script_run, (try_body_open_fails c E w r e Hget Hst Hopen).
  destruct (isinstance e RequestException); [|destruct (isinstance e IOError)].
  - exists [download_error e]. split; [apply new_events_app|]; simpl;
      rewrite <- ?app_assoc; reflexivity.
  - exists [write_error e]. split; [apply new_events_app|]; simpl;
      rewrite <- ?app_assoc; reflexivity.
  - exists []. split; [apply new_events_app|]; simpl;
      rewrite <- ?app_assoc, ?app_nil_r; reflexivity.
Qed.

Lemma failed_open_leaves_disk_untouched_witness :
  http env_missing_dir url = inr (mkResponse 200 "OK" url all_bytes None) ∧
  ¬ (400 ≤ 200 < 600)%Z ∧
  open_fault env_missing_dir destination = Some no_such_directory ∧
  fs (after 8192 env_missing_dir fresh_world) = fs fresh_world ∧
  fds (after 8192 env_missing_dir fresh_world) = fds fresh_world ∧
  ∃ said : list string,
    new_events fresh_world (after 8192 env_missing_dir fresh_world) =
      ([EvGet url; EvOpen destination] ++ (EvPrint <$> said))%list ∧
    stdout (after 8192 env_missing_dir fresh_world) = said.
Proof.
  split; [reflexivity|]. split; [lia|]. split; [reflexivity|].
  apply (failed_open_leaves_disk_untouched 8192 env_missing_dir fresh_world
           (mkResponse 200 "OK" url all_bytes None) no_such_directory).
  - reflexivity.
  - unfold error_status; simpl; lia.
  - reflexivity.
Defined.

(** ** Which exceptions leave the script *)

(** Every class under [RequestException] is under [IOError]: the second
    clause would match whatever the first one matches. *)
Lemma RequestException_is_IOError (e : exn) :
  isinstance e RequestException = true → isinstance e IOError = true.
Proof. destruct e as [[] s]; vm_compute; congruence. Qed.

(** X8.  An exception leaves the script exactly when the [try] body raises
    it and it is not an [IOError] (a [KeyboardInterrupt], say); the script
    then prints nothing.  Every other failure is caught. *)
Theorem exception_escapes_iff_not_IOError
    (c : nat) (E : env) (w : world) (e : exn) :
  (outcome c E w = inl e ↔
   (try_body c E w).1 = inl e ∧ isinstance e IOError = false) ∧
  (outcome c E w = inl e → stdout (after c E w) = stdout w).
Proof.
  split.
  - unfold outcome. rewrite script_run.
    destruct (try_body c E w) as [[e'|[]] w1]; simpl.
    + destruct (isinstance e' RequestException) eqn:Hreq.
      * apply RequestException_is_IOError in Hreq.
        split; [discriminate|]. intros [[= ->] Hio]. congruence.
      * destruct (isinstance e' IOError) eqn:Hio; simpl.
        -- split; [discriminate|]. intros [[= ->] Hio']. congruence.
        -- split; [intros [= ->]; auto | intros [Heq _]; exact Heq].
    + split; [discriminate | intros [Hne _]; discriminate].
  - intros Hesc.
    assert ((try_body c E w).1 = inl e) as Hres.
    { revert Hesc. unfold outcome. rewrite script_run.
      destruct (try_body c E w) as [[e'|[]] w1]; simpl; [|discriminate].
      repeat case_match; simpl; congruence. }
    destruct (script_reports c E w e Hres) as (Hreq & Hio & Hnone).
    destruct (isinstance e RequestException) eqn:Hr.
    { destruct (Hreq eq_refl) as [Hout _]. congruence. }
    destruct (isinstance e IOError) eqn:Hi.
    { destruct (Hio eq_refl eq_refl) as [Hout _]. congruence. }
    apply (Hnone eq_refl eq_refl).
Qed.

(** ** One call of requests.get, at most one line *)

Lemma requests_sent_prints (evs : list event) (said : list string) :
  requests_sent (evs ++ (EvPrint <$> said)) = requests_sent evs.
Proof.
  unfold requests_sent. rewrite filter_app, length_app.
  assert (filter (λ ev, is_get ev = true) (EvPrint <$> said) = []) as ->.
  { induction said as [|line said IH]; [reflexivity|].
    rewrite fmap_cons, filter_cons_False by (simpl; discriminate). exact IH. }
  simpl. lia.
Qed.

Lemma requests_sent_writes (fd : nat) (l : list (list byte)) (evs : list event) :
  requests_sent ((EvWrite fd <$> l) ++ evs) = requests_sent evs.
Proof.
  unfold requests_sent. rewrite filter_app, length_app.
  assert (filter (λ ev, is_get ev = true) (EvWrite fd <$> l) = []) as ->.
  { induction l as [|ch l IH]; [reflexivity|].
    rewrite fmap_cons, filter_cons_False by (simpl; discriminate). exact IH. }
  reflexivity.
Qed.

Lemma requests_sent_get (u : string) (evs : list event) :
  requests_sent (EvGet u :: evs) = S (requests_sent evs).
Proof. unfold requests_sent. rewrite filter_cons_True by reflexivity. reflexivity. Qed.

Lemma requests_sent_other (ev : event) (evs : list event) :
  is_get ev = false → requests_sent (ev :: evs) = requests_sent evs.
Proof.
  intros Hev. unfold requests_sent.
  rewrite filter_cons_False by (rewrite Hev; discriminate). reflexivity.
Qed.

(** X9.  Every run calls [requests.get] exactly once, whatever happens (the
    script never calls it again after a failure), and prints at most one
    line: exactly one when it ends normally, none when an exception leaves
    the script. *)
Theorem one_get_call_one_line (c : nat) (E : env) (w : world) :
  requests_sent (new_events w (after c E w)) = 1%nat ∧
  ∃ said : list string,
    stdout (after c E w) = (stdout w ++ said)%list ∧
    match outcome c E w with
    | inr _ => length said = 1%nat
    | inl _ => said = []
    end.
Proof.
  unfold outcome, after.
  destruct (http E url) as [e|r] eqn:Hget.
  { rewrite (script_no_response c E w e Hget).
    destruct (isinstance e RequestException); [|destruct (isinstance e IOError)];
      simpl; (split; [erewrite new_events_app by reflexivity; reflexivity|]).
    - exists [download_error e]. split; reflexivity.
    - exists [write_error e]. split; reflexivity.
    - exists []. split; [symmetry; apply app_nil_r | reflexivity]. }
  destruct (decide (error_status r)) as [Hst|Hst].
  { rewrite (script_error_status c E w r Hget Hst). simpl.
    split; [erewrite new_events_app by reflexivity; reflexivity|].
    eexists. split; reflexivity. }
  destruct (open_fault E destination) as [e|] eqn:Hopen.
  { rewrite script_run, (try_body_open_fails c E w r e Hget Hst Hopen).
    destruct (isinstance e RequestException); [|destruct (isinstance e IOError)];
      simpl.
    - split; [erewrite new_events_app
                by (simpl; rewrite <- !app_assoc; reflexivity); reflexivity|].
      exists [download_error e]. split; reflexivity.
    - split; [erewrite new_events_app
                by (simpl; rewrite <- !app_assoc; reflexivity); reflexivity|].
      exists [write_error e]. split; reflexivity.
    - split; [erewrite new_events_app
                by (simpl; rewrite <- !app_assoc; reflexivity); reflexivity|].
      exists []. split; [symmetry; apply app_nil_r | reflexivity]. }
  destruct (script_opened c E w r Hget Hst Hopen) as (said & -> & Hsaid).
  simpl. split.
  - erewrite new_events_app by reflexivity.
    change (requests_sent
              (EvGet url :: EvOpen destination ::
               (EvWrite (fresh (dom (fds w))) <$>
                  take (S (length (accepted E [] (chunks c (raw r)))))
                       (chunks c (raw r))) ++
               [EvClose (fresh (dom (fds w)))] ++ (EvPrint <$> said)) = 1%nat).
    rewrite requests_sent_get, requests_sent_other by reflexivity.
    rewrite requests_sent_writes. cbn [app].
    rewrite (requests_sent_other (EvClose _)) by reflexivity.
    apply f_equal, (requests_sent_prints []).
  - exists said. split; [reflexivity|]. subst said.
    destruct (block_result c E r) as [e|[]]; [|reflexivity].
    destruct (isinstance e RequestException); [reflexivity|].
    destruct (isinstance e IOError); reflexivity.
Qed.

(** Offline: one call of [requests.get], one line. *)
Example scenario_offline :
  requests_sent (new_events used_world (after 8192 env_offline used_world)) = 1%nat ∧
  length (stdout (after 8192 env_offline used_world)) = 1%nat.
Proof. vm_compute. split; reflexivity. Qed.

(** ** What the destination can hold *)

Lemma concat_prefix (l1 l2 : list (list byte)) :
  l1 `prefix_of` l2 → concat l1 `prefix_of` concat l2.
Proof. intros [k ->]. rewrite concat_app. apply prefix_app_r. reflexivity. Qed.

Lemma refused_None_accepted (E : env) (items : list (list byte)) :
  ∀ cur, refused E cur items = None → accepted E cur items = items.
Proof.
  induction items as [|chunk rest IH]; intros cur; simpl; [reflexivity|].
  destruct (write_fault E cur chunk); [discriminate|].
  intros Href. rewrite (IH _ Href). reflexivity.
Qed.

(** X10.  Whenever the destination has been opened, it holds after the run
    a prefix of the bytes that arrived, in their order: the loop never
    writes anything else, never skips and never repeats a chunk, also when
    the transfer is broken off. *)
Theorem destination_holds_prefix_of_stream
    (c : nat) (E : env) (w : world) (r : Response) :
  (0 < c)%nat →
  http E url = inr r →
  ¬ error_status r →
  open_fault E destination = None →
  ∃ written : list byte,
    fs (after c E w) !! destination = Some written ∧
    written `prefix_of` raw r.
Proof.
  intros Hc Hget Hst Hopen.
  exists (concat (accepted E [] (chunks c (raw r)))). split.
  - rewrite disk_after_run, Hget, Hopen.
    destruct (decide (error_status r)); [contradiction|].
    apply lookup_insert_eq.
  - rewrite <- (chunks_concat c (raw r) Hc) at 2.
    apply concat_prefix, accepted_prefix.
Qed.

Lemma destination_holds_prefix_of_stream_witness :
  (0 < 7)%nat ∧
  http env_disk_full url = inr (mkResponse 200 "OK" url all_bytes None) ∧
  ¬ (400 ≤ 200 < 600)%Z ∧
  open_fault env_disk_full destination = None ∧
  ∃ written : list byte,
    fs (after 7 env_disk_full used_world) !! destination = Some written ∧
    written `prefix_of` all_bytes.
Proof.
  split; [lia|]. split; [reflexivity|]. split; [lia|]. split; [reflexivity|].
  apply (destination_holds_prefix_of_stream 7 env_disk_full used_world
           (mkResponse 200 "OK" url all_bytes None)).
  - lia.
  - reflexivity.
  - unfold error_status; simpl; lia.
  - reflexivity.
Defined.

(** X11.  The success message is printed over a complete file only: when a
    run that received a response prints it, the status passed the check,
    the stream ended without an error, every write and the close succeeded,
    and the destination holds exactly the body. *)
Theorem success_message_means_complete
    (c : nat) (E : env) (w : world) (r : Response) :
  (0 < c)%nat →
  http E url = inr r →
  stdout (after c E w) = (stdout w ++ [success_message])%list →
  ¬ error_status r ∧
  raw_error r = None ∧
  open_fault E destination = None ∧
  refused E [] (chunks c (raw r)) = None ∧
  close_fault E destination = None ∧
  outcome c E w = inr tt ∧
  fs (after c E w) = <[destination := raw r]> (fs w).
Proof.
  intros Hc Hget. unfold outcome, after.
  assert (∀ l : list string, stdout w = (stdout w ++ l)%list → l = []) as Hnil.
  { intros l Hl. apply (app_inv_head (stdout w)). rewrite app_nil_r. auto. }
  destruct (decide (error_status r)) as [Hst|Hst].
  { rewrite (script_error_status c E w r Hget Hst). simpl.
    intros Hmsg%app_inv_head.
    destruct (error_messages_distinct
                (mkExn HTTPError (http_error_msg r)) (mkExn HTTPError ""))
      as (Hd & _). congruence. }
  destruct (open_fault E destination) as [e|] eqn:Hopen.
  { rewrite script_run, (try_body_open_fails c E w r e Hget Hst Hopen).
    destruct (error_messages_distinct e e) as (Hd & Hw & _).
    destruct (isinstance e RequestException); [|destruct (isinstance e IOError)];
      simpl.
    - intros Hmsg%app_inv_head. congruence.
    - intros Hmsg%app_inv_head. congruence.
    - intros Hl%Hnil. discriminate. }
  destruct (script_opened c E w r Hget Hst Hopen) as (said & -> & Hsaid).
  simpl. intros Hout%app_inv_head. subst said.
  destruct (block_result c E r) as [e|[]] eqn:Hblock.
  { destruct (error_messages_distinct e e) as (Hd & Hw & _).
    destruct (isinstance e RequestException); [|destruct (isinstance e IOError)];
      congruence. }
  unfold block_result in Hblock.
  destruct (close_fault E destination); [discriminate|].
  destruct (refused E [] (chunks c (raw r))) eqn:Href; [discriminate|].
  destruct (raw_error r); [discriminate|].
  rewrite (refused_None_accepted E _ [] Href), (chunks_concat c (raw r) Hc).
  repeat split; auto.
Qed.

Lemma success_message_means_complete_witness :
  (0 < 7)%nat ∧
  http env_ok url = inr (mkResponse 200 "OK" url all_bytes None) ∧
  stdout (after 7 env_ok used_world) = [success_message] ∧
  ¬ error_status (mkResponse 200 "OK" url all_bytes None) ∧
  raw_error (mkResponse 200 "OK" url all_bytes None) = None ∧
  open_fault env_ok destination = None ∧
  refused env_ok [] (chunks 7 all_bytes) = None ∧
  close_fault env_ok destination = None ∧
  outcome 7 env_ok used_world = inr tt ∧
  fs (after 7 env_ok used_world) = <[destination := all_bytes]> (fs used_world).
Proof.
  split; [lia|]. split; [reflexivity|]. split; [vm_compute; reflexivity|].
  apply (success_message_means_complete 7 env_ok used_world
           (mkResponse 200 "OK" url all_bytes None)).
  - lia.
  - reflexivity.
  - vm_compute; reflexivity.
Defined.
